(** * template-main: the process entry point of [src/main.cc]

    The translation unit includes one header, imports three modules and
    defines [main], whose body is [return EXIT_SUCCESS;].

    The development has three layers:
    - the host and the external state a process can observe and change;
    - [main] itself, as a computation in a small monad of effects, and the
      process started from it ([process]);
    - the text of the translation unit ([main_cc]) with an interpreter for
      the statement forms, used where a property speaks about the text
      (loops, calls, imports) and checked against [main]. *)

From Stdlib Require Import ZArith List String Bool Lia Permutation.
Import ListNotations.
Local Open Scope string_scope.
Local Open Scope list_scope.
Local Open Scope Z_scope.

(** ** Host environment and external state *)

(** What the host hands to a process when it starts it. An empty [entropy]
    is a host with no source of randomness. *)
Record Host : Type := mkHost {
  argv : list string;
  environ : list (string * string);
  fs_readable : bool;
  net_reachable : bool;
  entropy : list Z
}.

(** What a process can change outside of itself. *)
Record World : Type := mkWorld {
  files : list (string * string);
  net_sent : list string;
  out_stream : string;
  err_stream : string
}.

(** Observable actions of a process. *)
Inductive event : Type :=
| EvArgs
| EvGetenv (name : string)
| EvFileRead (path : string)
| EvFileWrite (path data : string)
| EvNetSend (data : string)
| EvStdWrite (fd : Z) (data : string)
| EvRandom (drawn : Z).

(** ** The C library's termination statuses

    [EXIT_SUCCESS] and [EXIT_FAILURE] are macros of <cstdlib>; their values
    belong to the platform, not to the repository. *)
Class CLib : Type := {
  EXIT_SUCCESS : Z;
  EXIT_FAILURE : Z
}.

(** The usual hosted C library: success is 0, failure is 1. *)
Definition hosted_clib : CLib := {| EXIT_SUCCESS := 0; EXIT_FAILURE := 1 |}.

(** A C library with other values, to tell "the value of EXIT_SUCCESS" from
    "zero". *)
Definition odd_clib : CLib := {| EXIT_SUCCESS := 1; EXIT_FAILURE := 0 |}.

(** ** Computations *)

(** How running a piece of code ends. [Unresolved] is a name with no
    declaration in scope (the unit does not build); [OutOfFuel] is the
    interpreter's budget running out and never arises from [main] below. *)
Inductive result (A : Type) : Type :=
| Val (a : A) (w : World) (tr : list event)
| Exc (w : World) (tr : list event)
| Blk (w : World) (tr : list event)
| Unresolved (name : string)
| OutOfFuel.
Arguments Val {A} a w tr.
Arguments Exc {A} w tr.
Arguments Blk {A} w tr.
Arguments Unresolved {A} name.
Arguments OutOfFuel {A}.

Definition M (A : Type) : Type := Host -> World -> result A.

Definition ret {A : Type} (a : A) : M A := fun _ w => Val a w [].

(** Events of the continuation come after those already produced. *)
Definition after {A : Type} (tr : list event) (r : result A) : result A :=
  match r with
  | Val a w t => Val a w (tr ++ t)
  | Exc w t => Exc w (tr ++ t)
  | Blk w t => Blk w (tr ++ t)
  | Unresolved n => Unresolved n
  | OutOfFuel => OutOfFuel
  end.

Definition bind {A B : Type} (m : M A) (k : A -> M B) : M B :=
  fun h w =>
    match m h w with
    | Val a w1 tr => after tr (k a h w1)
    | Exc w1 tr => Exc w1 tr
    | Blk w1 tr => Blk w1 tr
    | Unresolved n => Unresolved n
    | OutOfFuel => OutOfFuel
    end.

Notation "x <- m ;; k" := (bind m (fun x => k))
  (at level 61, m at next level, right associativity).

(** ** How a process ends *)

Inductive outcome : Type :=
| Exit (status : Z) (w : World) (tr : list event)
| Abort (w : World) (tr : list event)
| Hang (w : World) (tr : list event)
| NotBuilt (name : string)
| Unfinished.

(** Returning from [main] is calling [exit] with the returned value; an
    exception leaving [main] ends in [std::terminate]. *)
Definition start (entry : M Z) (h : Host) (w : World) : outcome :=
  match entry h w with
  | Val st w' tr => Exit st w' tr
  | Exc w' tr => Abort w' tr
  | Blk w' tr => Hang w' tr
  | Unresolved n => NotBuilt n
  | OutOfFuel => Unfinished
  end.

Definition exit_status (o : outcome) : option Z :=
  match o with
  | Exit st _ _ => Some st
  | _ => None
  end.

Definition final_world (o : outcome) : option World :=
  match o with
  | Exit _ w _ | Abort w _ | Hang w _ => Some w
  | _ => None
  end.

Definition effects (o : outcome) : option (list event) :=
  match o with
  | Exit _ _ tr | Abort _ tr | Hang _ tr => Some tr
  | _ => None
  end.

(** An outcome that surfaces an error: anything but an exit, and an exit
    whose status is not the success status. *)
Definition is_error {L : CLib} (o : outcome) : bool :=
  match o with
  | Exit st _ _ => negb (st =? EXIT_SUCCESS)
  | _ => true
  end.

Section EntryPoint.
Context {L : CLib}.

(** [int main() { return EXIT_SUCCESS; }] *)
Definition main : M Z := ret EXIT_SUCCESS.

(** The process: the runtime calls [main] and exits with what it returns. *)
Definition process : Host -> World -> outcome := start main.

(** Runs of the program one after another, each on the host given for it,
    the external state passing from one run to the next. A run that does
    not exit leaves the state it reached. *)
Fixpoint run_many (hs : list Host) (w : World) : list outcome * World :=
  match hs with
  | [] => ([], w)
  | h :: rest =>
      let o := process h w in
      let w1 := match final_world o with Some w' => w' | None => w end in
      let (os, w2) := run_many rest w1 in
      (o :: os, w2)
  end.

End EntryPoint.

(** ** The process as a state machine *)

(** A process is running on its host, or it has ended with an outcome. *)
Inductive pstate : Type :=
| Running (h : Host) (w : World)
| Ended (o : outcome).

(** An outcome in which the process is gone: it exited or it was aborted. *)
Definition terminated (o : outcome) : bool :=
  match o with
  | Exit _ _ _ | Abort _ _ => true
  | _ => false
  end.

(** The one kind of transition: the entry point runs to its end. A process
    that hangs makes no transition. *)
Inductive step (entry : M Z) : pstate -> pstate -> Prop :=
| step_end : forall h w,
    terminated (start entry h w) = true ->
    step entry (Running h w) (Ended (start entry h w)).

Inductive reachable (entry : M Z) (s0 : pstate) : pstate -> Prop :=
| reach_here : reachable entry s0 s0
| reach_step : forall s s',
    reachable entry s0 s -> step entry s s' -> reachable entry s0 s'.

Definition terminal (entry : M Z) (s : pstate) : Prop :=
  forall s', ~ step entry s s'.

(** The states the specification names, and everything else. *)
Inductive phase : Type :=
| PhRunning
| PhTerminatedSuccess
| PhOther.

Definition phase_of {L : CLib} (s : pstate) : phase :=
  match s with
  | Running _ _ => PhRunning
  | Ended (Exit st _ _) => if st =? EXIT_SUCCESS then PhTerminatedSuccess else PhOther
  | Ended _ => PhOther
  end.

(** ** The text of the translation unit *)

#[local] Set Warnings "-register-all".

Inductive expr : Type :=
| EConst (z : Z)
| EMacro (name : string)
| EVar (name : string)
| ECall (callee : string) (args : list expr).

Inductive stmt : Type :=
| SReturn (e : expr)
| SExpr (e : expr)
| SIf (c : expr) (thn els : list stmt)
| SWhile (c : expr) (body : list stmt).

Record fundef : Type := mkFun {
  fn_name : string;
  fn_params : list string;
  fn_body : list stmt
}.

Record translation_unit : Type := mkUnit {
  includes : list string;
  imports : list string;
  functions : list fundef
}.

(** [int main() { return EXIT_SUCCESS; }] *)
Definition main_def : fundef :=
  {| fn_name := "main";
     fn_params := [];
     fn_body := [SReturn (EMacro "EXIT_SUCCESS")] |}.

(** [src/main.cc]: [#include <everything>], the three [import]s, [main]. *)
Definition main_cc : translation_unit :=
  {| includes := ["everything"];
     imports := ["rose.filesystem"; "rose.random"; "rose.span"];
     functions := [main_def] |}.

(** The same unit without its import declarations. *)
Definition drop_imports (u : translation_unit) : translation_unit :=
  {| includes := includes u; imports := []; functions := functions u |}.

(** *** What the text contains *)

Definition expr_has_call (e : expr) : bool :=
  match e with
  | ECall _ _ => true
  | _ => false
  end.

Fixpoint stmt_has_call (s : stmt) : bool :=
  match s with
  | SReturn e | SExpr e => expr_has_call e
  | SIf c t e =>
      expr_has_call c || existsb stmt_has_call t || existsb stmt_has_call e
  | SWhile c b => expr_has_call c || existsb stmt_has_call b
  end.

Fixpoint stmt_has_loop (s : stmt) : bool :=
  match s with
  | SReturn _ | SExpr _ => false
  | SIf _ t e => existsb stmt_has_loop t || existsb stmt_has_loop e
  | SWhile _ _ => true
  end.

(** The names called, in order of appearance. *)
Fixpoint expr_calls (e : expr) : list string :=
  match e with
  | ECall f args => f :: flat_map expr_calls args
  | _ => []
  end.

Fixpoint stmt_calls (s : stmt) : list string :=
  match s with
  | SReturn e | SExpr e => expr_calls e
  | SIf c t e => expr_calls c ++ flat_map stmt_calls t ++ flat_map stmt_calls e
  | SWhile c b => expr_calls c ++ flat_map stmt_calls b
  end.

Definition unit_calls (u : translation_unit) : list string :=
  flat_map (fun fd => flat_map stmt_calls (fn_body fd)) (functions u).

(** A budget that suffices to run code with no loop and no call: one unit
    for each level of the text. *)
Fixpoint stmt_size (s : stmt) : nat :=
  match s with
  | SReturn _ | SExpr _ => 2%nat
  | SIf _ t e =>
      S (S (list_sum (map stmt_size t)) + S (list_sum (map stmt_size e)))
  | SWhile _ b => S (S (list_sum (map stmt_size b)))
  end.

Definition block_size (b : list stmt) : nat :=
  S (list_sum (map stmt_size b)).

(** ** Running the text *)

(** A function that is not defined in the unit: it gets the values of its
    arguments and may do anything a computation can do. *)
Definition extern : Type := list Z -> M Z.

Inductive callee : Type :=
| Local (fd : fundef)
| External (g : extern).

Definition unresolved {A : Type} (name : string) : M A :=
  fun _ _ => Unresolved name.

Definition out_of_fuel {A : Type} : M A := fun _ _ => OutOfFuel.

Fixpoint assoc (x : string) (env : list (string * Z)) : option Z :=
  match env with
  | [] => None
  | (y, v) :: rest => if (x =? y)%string then Some v else assoc x rest
  end.

(** The first of [units] in which [table] declares [f]. *)
Fixpoint find_in (table : string -> string -> option extern)
    (units : list string) (f : string) : option extern :=
  match units with
  | [] => None
  | m :: rest =>
      match table m f with
      | Some g => Some g
      | None => find_in table rest f
      end
  end.

(** Modelled from the spec: the header <everything> is not under src/. The
    entry point returns "the conventional success exit code", written
    [EXIT_SUCCESS] in the source, so the header is taken to bring in the
    termination macros of <cstdlib>, as <cstdlib> itself does. *)
Definition provides_cstdlib (header : string) : bool :=
  (header =? "everything")%string || (header =? "cstdlib")%string.

Section Interpreter.
Context {L : CLib}.

(** The functions of the headers and the exports of the modules: neither
    is under src/, so both are arbitrary. *)
Variable std : string -> string -> option extern.
Variable rose : string -> string -> option extern.

Variable u : translation_unit.

(** A macro gets its value from the included headers only: a module
    exports no macro. Constants that a module might export under the same
    name are outside this fragment. *)
Definition macro_value (m : string) : option Z :=
  if existsb provides_cstdlib (includes u) then
    if (m =? "EXIT_SUCCESS")%string then Some EXIT_SUCCESS
    else if (m =? "EXIT_FAILURE")%string then Some EXIT_FAILURE
    else None
  else None.

Definition find_fun (f : string) : option fundef :=
  find (fun fd => (fn_name fd =? f)%string) (functions u).

(** A name is looked up in the unit, then in the imported modules, then in
    the included headers. *)
Definition resolve (f : string) : option callee :=
  match find_fun f with
  | Some fd => Some (Local fd)
  | None =>
      match find_in rose (imports u) f with
      | Some g => Some (External g)
      | None => option_map External (find_in std (includes u) f)
      end
  end.

Definition or_zero (r : option Z) : Z :=
  match r with
  | Some v => v
  | None => 0
  end.

(** Statements yield [Some v] on [return v] and [None] when control flows
    off their end. Every level of the text costs one unit of fuel. *)
Fixpoint eval (n : nat) (env : list (string * Z)) (e : expr) {struct n} : M Z :=
  match n with
  | O => out_of_fuel
  | S n' =>
      match e with
      | EConst z => ret z
      | EMacro m =>
          match macro_value m with
          | Some z => ret z
          | None => unresolved m
          end
      | EVar x =>
          match assoc x env with
          | Some z => ret z
          | None => unresolved x
          end
      | ECall f args =>
          vs <- eval_args n' env args ;;
          call n' f vs
      end
  end
with eval_args (n : nat) (env : list (string * Z)) (es : list expr)
    {struct n} : M (list Z) :=
  match n with
  | O => out_of_fuel
  | S n' =>
      match es with
      | [] => ret []
      | e :: rest =>
          v <- eval n' env e ;;
          vs <- eval_args n' env rest ;;
          ret (v :: vs)
      end
  end
with call (n : nat) (f : string) (vs : list Z) {struct n} : M Z :=
  match n with
  | O => out_of_fuel
  | S n' =>
      match resolve f with
      | Some (Local fd) =>
          r <- exec_block n' (combine (fn_params fd) vs) (fn_body fd) ;;
          ret (or_zero r)
      | Some (External g) => g vs
      | None => unresolved f
      end
  end
with exec_stmt (n : nat) (env : list (string * Z)) (s : stmt)
    {struct n} : M (option Z) :=
  match n with
  | O => out_of_fuel
  | S n' =>
      match s with
      | SReturn e => v <- eval n' env e ;; ret (Some v)
      | SExpr e => _ <- eval n' env e ;; ret None
      | SIf c t e =>
          v <- eval n' env c ;;
          if v =? 0 then exec_block n' env e else exec_block n' env t
      | SWhile c b =>
          v <- eval n' env c ;;
          if v =? 0 then ret None
          else
            r <- exec_block n' env b ;;
            match r with
            | Some x => ret (Some x)
            | None => exec_stmt n' env (SWhile c b)
            end
      end
  end
with exec_block (n : nat) (env : list (string * Z)) (b : list stmt)
    {struct n} : M (option Z) :=
  match n with
  | O => out_of_fuel
  | S n' =>
      match b with
      | [] => ret None
      | s :: rest =>
          r <- exec_stmt n' env s ;;
          match r with
          | Some x => ret (Some x)
          | None => exec_block n' env rest
          end
      end
  end.

(** What the runtime passes to [main]: nothing when [main] declares no
    parameter, the number of arguments as the first parameter otherwise
    (the argument vector is a pointer, outside this integer fragment). *)
Definition main_env (fd : fundef) (h : Host) : list (string * Z) :=
  combine (fn_params fd) [Z.of_nat (List.length (argv h))].

(** The entry point of the unit as a computation; control flowing off the
    end of [main] returns 0. *)
Definition entry (n : nat) (fd : fundef) : M Z :=
  fun h => (r <- exec_block n (main_env fd h) (fn_body fd) ;; ret (or_zero r)) h.

(** The process built from the unit and run with budget [n]. *)
Definition run_unit (n : nat) (h : Host) (w : World) : outcome :=
  match find_fun "main" with
  | Some fd => start (entry n fd) h w
  | None => NotBuilt "main"
  end.

End Interpreter.

(** *** Names that resolve *)

Section Resolution.
Context {L : CLib}.
Variable u : translation_unit.
Variable env : list (string * Z).

Definition is_some {A : Type} (o : option A) : bool :=
  match o with
  | Some _ => true
  | None => false
  end.

(** The macros and variables of a call-free expression are declared. *)
Definition expr_resolves (e : expr) : bool :=
  match e with
  | EConst _ => true
  | EMacro m => is_some (macro_value u m)
  | EVar x => is_some (assoc x env)
  | ECall _ _ => true
  end.

Fixpoint stmt_resolves (s : stmt) : bool :=
  match s with
  | SReturn e | SExpr e => expr_resolves e
  | SIf c t e =>
      expr_resolves c && forallb stmt_resolves t && forallb stmt_resolves e
  | SWhile c b => expr_resolves c && forallb stmt_resolves b
  end.

End Resolution.

(** ** Hosts used to compare invocations *)

Definition with_argv (a : list string) (h : Host) : Host :=
  {| argv := a;
     environ := environ h;
     fs_readable := fs_readable h;
     net_reachable := net_reachable h;
     entropy := entropy h |}.

(** A host with no readable filesystem, no network and no randomness. *)
Definition barren_host (a : list string) (e : list (string * string)) : Host :=
  {| argv := a; environ := e; fs_readable := false; net_reachable := false;
     entropy := [] |}.

Definition plain_host : Host :=
  {| argv := ["template-main"]; environ := [("HOME", "/root")];
     fs_readable := true; net_reachable := true; entropy := [4; 8; 15] |}.

Definition empty_world : World :=
  {| files := []; net_sent := []; out_stream := ""; err_stream := "" |}.

(** Headers and modules that declare no function at all. *)
Definition no_externs : string -> string -> option extern := fun _ _ => None.

(** Modules whose every name is a function that throws: the worst the
    imports could bring. *)
Definition throwing_externs : string -> string -> option extern :=
  fun _ _ => Some (fun _ _ w => Exc w []).

(** [names] contains no export of a module that [u] imports. *)
Definition unused_names (rose : string -> string -> option extern)
    (u : translation_unit) (names : list string) : Prop :=
  forall f, In f names -> find_in rose (imports u) f = None.

(** ** Other programs, for comparison

    These units are not in the repository. They are what [main.cc] is not:
    a [main] that reads its argument count, one that loops, one that calls
    into an imported module. The interpreter tells each of them apart from
    [main_cc]. *)

(** [int main(int argc) { return argc; }] *)
Definition argc_cc : translation_unit :=
  {| includes := ["everything"];
     imports := [];
     functions := [ {| fn_name := "main"; fn_params := ["argc"];
                       fn_body := [SReturn (EVar "argc")] |} ] |}.

(** [int main() { while (1) {} }] *)
Definition spin_cc : translation_unit :=
  {| includes := ["everything"];
     imports := [];
     functions := [ {| fn_name := "main"; fn_params := [];
                       fn_body := [SWhile (EConst 1) []] |} ] |}.

(** [import rose.random; int main() { return rose::draw(); }] *)
Definition draw_cc : translation_unit :=
  {| includes := ["everything"];
     imports := ["rose.random"];
     functions := [ {| fn_name := "main"; fn_params := [];
                       fn_body := [SReturn (ECall "rose::draw" [])] |} ] |}.

(** * Properties *)

(** ** The monad *)

Lemma after_nil {A : Type} (r : result A) : after [] r = r.
Proof. destruct r; reflexivity. Qed.

Lemma bind_ret_l {A B : Type} (a : A) (k : A -> M B) (h : Host) (w : World) :
  bind (ret a) k h w = k a h w.
Proof. unfold bind, ret. apply after_nil. Qed.

Lemma bind_val {A B : Type} (m : M A) (k : A -> M B) h w a :
  m h w = Val a w [] -> bind m k h w = k a h w.
Proof. intros E. unfold bind. rewrite E. apply after_nil. Qed.

Lemma bind_ext {A B : Type} (m m' : M A) (k k' : A -> M B) h w :
  m h w = m' h w ->
  (forall a w1, k a h w1 = k' a h w1) ->
  bind m k h w = bind m' k' h w.
Proof.
  intros Em Ek. unfold bind. rewrite Em.
  destruct (m' h w); try reflexivity.
  now rewrite Ek.
Qed.

Lemma start_val (m : M Z) h w st w' tr :
  m h w = Val st w' tr -> start m h w = Exit st w' tr.
Proof. intros E. unfold start. now rewrite E. Qed.

(** ** The entry point *)

Lemma main_returns {L : CLib} (h : Host) (w : World) :
  main h w = Val EXIT_SUCCESS w [].
Proof. reflexivity. Qed.

Lemma process_exits {L : CLib} (h : Host) (w : World) :
  process h w = Exit EXIT_SUCCESS w [].
Proof. unfold process. apply start_val, main_returns. Qed.

(** ** Code with no loop and no call *)

Lemma stmt_size_pos (s : stmt) : (2 <= stmt_size s)%nat.
Proof. destruct s; simpl; lia. Qed.

Section StraightLine.
Context {L : CLib}.
Variables std rose : string -> string -> option extern.
Variable u : translation_unit.
Variable env : list (string * Z).

Lemma eval_call_free (n : nat) (e : expr) (h : Host) (w : World) :
  expr_has_call e = false ->
  expr_resolves u env e = true ->
  exists v, eval std rose u (S n) env e h w = Val v w [].
Proof.
  destruct e as [z | m | x | f args]; simpl; intros Hc Hr.
  - now exists z.
  - destruct (macro_value u m) as [z |]; [now exists z | discriminate].
  - destruct (assoc x env) as [z |]; [now exists z | discriminate].
  - discriminate.
Qed.

(** Straight-line code whose names are declared runs to its end within
    its size, changes nothing and produces no event. *)
Lemma straight_line_runs (n : nat) :
  (forall s h w,
      stmt_has_call s = false -> stmt_has_loop s = false ->
      stmt_resolves u env s = true -> (stmt_size s <= n)%nat ->
      exists r, exec_stmt std rose u n env s h w = Val r w [])
  /\
  (forall b h w,
      existsb stmt_has_call b = false -> existsb stmt_has_loop b = false ->
      forallb (stmt_resolves u env) b = true -> (block_size b <= n)%nat ->
      exists r, exec_block std rose u n env b h w = Val r w []).
Proof.
  induction n as [| n [IHs IHb]].
  - split.
    + intros s h w _ _ _ Hn. pose proof (stmt_size_pos s). lia.
    + intros b h w _ _ _ Hn. unfold block_size in Hn. lia.
  - split.
    + intros s h w Hc Hl Hr Hn.
      destruct s as [e | e | c t e | c b]; simpl in *.
      * destruct n as [| n]; [lia |].
        destruct (eval_call_free n e h w Hc Hr) as [v Ev].
        exists (Some v). rewrite (bind_val _ _ _ _ _ Ev). reflexivity.
      * destruct n as [| n]; [lia |].
        destruct (eval_call_free n e h w Hc Hr) as [v Ev].
        exists None. rewrite (bind_val _ _ _ _ _ Ev). reflexivity.
      * apply orb_false_iff in Hc as [Hc Hce].
        apply orb_false_iff in Hc as [Hcc Hct].
        apply orb_false_iff in Hl as [Hlt Hle].
        apply andb_true_iff in Hr as [Hr Hre].
        apply andb_true_iff in Hr as [Hrc Hrt].
        destruct n as [| n]; [lia |].
        destruct (eval_call_free n c h w Hcc Hrc) as [v Ev].
        rewrite (bind_val _ _ _ _ _ Ev).
        destruct (v =? 0).
        -- apply IHb; auto. unfold block_size. lia.
        -- apply IHb; auto. unfold block_size. lia.
      * discriminate.
    + intros b h w Hc Hl Hr Hn.
      destruct b as [| s rest]; simpl in *.
      * now exists None.
      * apply orb_false_iff in Hc as [Hcs Hcr].
        apply orb_false_iff in Hl as [Hls Hlr].
        apply andb_true_iff in Hr as [Hrs Hrr].
        pose proof (stmt_size_pos s) as Hpos.
        unfold block_size in Hn. simpl in Hn.
        destruct (IHs s h w Hcs Hls Hrs) as [r Er]; [lia |].
        rewrite (bind_val _ _ _ _ _ Er).
        destruct r as [x |].
        -- now exists (Some x).
        -- apply IHb; auto. unfold block_size. lia.
Qed.

Lemma straight_block_runs (n : nat) (b : list stmt) (h : Host) (w : World) :
  existsb stmt_has_call b = false -> existsb stmt_has_loop b = false ->
  forallb (stmt_resolves u env) b = true -> (block_size b <= n)%nat ->
  exists r, exec_block std rose u n env b h w = Val r w [].
Proof. intros. now apply straight_line_runs. Qed.

End StraightLine.

(** ** Imports that no call resolves to *)

Section UnusedImports.
Context {L : CLib}.
Variables std rose : string -> string -> option extern.
Variable u : translation_unit.

(** No name called anywhere in the unit is an export of an imported
    module. *)
Hypothesis imports_unused :
  forall f, In f (unit_calls u) -> find_in rose (imports u) f = None.

Lemma macro_value_drop_imports (m : string) :
  macro_value (drop_imports u) m = macro_value u m.
Proof. reflexivity. Qed.

Lemma resolve_drop_imports (f : string) :
  find_in rose (imports u) f = None ->
  resolve std rose (drop_imports u) f = resolve std rose u f.
Proof.
  intros Hf. unfold resolve, find_fun. simpl.
  destruct (find _ (functions u)); [reflexivity |].
  now rewrite Hf.
Qed.

Lemma body_calls_unused (f : string) (fd : fundef) :
  find_fun u f = Some fd ->
  unused_names rose u (flat_map stmt_calls (fn_body fd)).
Proof.
  intros Hfind g Hg. apply imports_unused.
  unfold find_fun in Hfind. apply find_some in Hfind as [Hin _].
  unfold unit_calls. apply in_flat_map. now exists fd.
Qed.

Lemma interpreter_drop_imports (n : nat) :
  (forall env e h w, unused_names rose u (expr_calls e) ->
      eval std rose (drop_imports u) n env e h w = eval std rose u n env e h w)
  /\
  (forall env es h w, unused_names rose u (flat_map expr_calls es) ->
      eval_args std rose (drop_imports u) n env es h w
      = eval_args std rose u n env es h w)
  /\
  (forall f vs h w, find_in rose (imports u) f = None ->
      call std rose (drop_imports u) n f vs h w = call std rose u n f vs h w)
  /\
  (forall env s h w, unused_names rose u (stmt_calls s) ->
      exec_stmt std rose (drop_imports u) n env s h w
      = exec_stmt std rose u n env s h w)
  /\
  (forall env b h w, unused_names rose u (flat_map stmt_calls b) ->
      exec_block std rose (drop_imports u) n env b h w
      = exec_block std rose u n env b h w).
Proof.
  induction n as [| n (IHe & IHa & IHc & IHs & IHb)].
  - repeat split; reflexivity.
  - repeat split.
    + intros env e h w Hu.
      destruct e as [z | m | x | f args]; simpl; try reflexivity.
      apply bind_ext.
      * apply IHa. intros g Hg. apply Hu. simpl. now right.
      * intros vs w1. apply IHc. apply Hu. simpl. now left.
    + intros env es h w Hu.
      destruct es as [| e rest]; simpl; [reflexivity |].
      apply bind_ext.
      * apply IHe. intros g Hg. apply Hu. simpl. apply in_or_app. now left.
      * intros v w1. apply bind_ext; [| reflexivity].
        apply IHa. intros g Hg. apply Hu. simpl. apply in_or_app. now right.
    + intros f vs h w Hf. simpl.
      rewrite (resolve_drop_imports f Hf).
      destruct (resolve std rose u f) as [[fd | g] |] eqn:Er; try reflexivity.
      apply bind_ext; [| reflexivity].
      apply IHb. apply (body_calls_unused f).
      unfold resolve in Er.
      destruct (find_fun u f) as [fd' |]; [congruence |].
      destruct (find_in rose (imports u) f); [discriminate |].
      destruct (find_in std (includes u) f); discriminate.
    + intros env s h w Hu.
      destruct s as [e | e | c t e | c b]; simpl in *.
      * apply bind_ext; [| reflexivity]. now apply IHe.
      * apply bind_ext; [| reflexivity]. now apply IHe.
      * apply bind_ext.
        -- apply IHe. intros g Hg. apply Hu. apply in_or_app. now left.
        -- intros v w1. destruct (v =? 0); apply IHb; intros g Hg; apply Hu;
             apply in_or_app; right; apply in_or_app; auto.
      * apply bind_ext.
        -- apply IHe. intros g Hg. apply Hu. apply in_or_app. now left.
        -- intros v w1. destruct (v =? 0); [reflexivity |].
           apply bind_ext.
           ++ apply IHb. intros g Hg. apply Hu. apply in_or_app. now right.
           ++ intros [x |] w2; [reflexivity |]. now apply IHs.
    + intros env b h w Hu.
      destruct b as [| s rest]; simpl in *; [reflexivity |].
      apply bind_ext.
      * apply IHs. intros g Hg. apply Hu. apply in_or_app. now left.
      * intros [x |] w1; [reflexivity |].
        apply IHb. intros g Hg. apply Hu. apply in_or_app. now right.
Qed.

(** A unit that calls no export of its imports behaves the same without
    the import declarations, whatever the modules contain. *)
Lemma run_unit_drop_imports (n : nat) (h : Host) (w : World) :
  run_unit std rose (drop_imports u) n h w = run_unit std rose u n h w.
Proof.
  unfold run_unit, find_fun. simpl.
  destruct (find _ (functions u)) as [fd |] eqn:Efd; [| reflexivity].
  unfold start, entry.
  assert (E : forall A (k : option Z -> M A),
    bind (exec_block std rose (drop_imports u) n (main_env fd h) (fn_body fd)) k h w
    = bind (exec_block std rose u n (main_env fd h) (fn_body fd)) k h w).
  { intros A k. apply bind_ext; [| reflexivity].
    apply interpreter_drop_imports. now apply (body_calls_unused "main"). }
  now rewrite E.
Qed.

End UnusedImports.

(** ** The text of [main.cc] against [main] *)

(** With a budget of three (block, statement, expression) the interpreter
    runs the text of [main.cc] to the outcome of [process]; below that it
    does not finish. Nothing depends on what the headers and modules
    declare. *)
Lemma main_cc_any_fuel {L : CLib}
    (std rose : string -> string -> option extern) (n : nat)
    (h : Host) (w : World) :
  run_unit std rose main_cc n h w
  = if (n <? 3)%nat then Unfinished else process h w.
Proof.
  destruct n as [| [| [| n]]]; reflexivity.
Qed.

Lemma main_cc_runs_main {L : CLib}
    (std rose : string -> string -> option extern) (n : nat)
    (h : Host) (w : World) :
  run_unit std rose main_cc (3 + n) h w = process h w.
Proof. now rewrite main_cc_any_fuel. Qed.

Lemma main_body_resolves {L : CLib} (env : list (string * Z)) :
  forallb (stmt_resolves main_cc env) (fn_body main_def) = true.
Proof. reflexivity. Qed.

(** ** Unfolding the interpreter *)

Lemma exec_block_cons {L : CLib}
    (std rose : string -> string -> option extern) (u : translation_unit)
    (n : nat) (env : list (string * Z)) (s : stmt) (rest : list stmt) :
  exec_block std rose u (S n) env (s :: rest)
  = (r <- exec_stmt std rose u n env s ;;
     match r with
     | Some x => ret (Some x)
     | None => exec_block std rose u n env rest
     end).
Proof. reflexivity. Qed.

Lemma run_unit_main {L : CLib}
    (std rose : string -> string -> option extern) (u : translation_unit)
    (fd : fundef) (n : nat) (h : Host) (w : World) :
  find_fun u "main" = Some fd ->
  run_unit std rose u n h w = start (entry std rose u n fd) h w.
Proof. intros E. unfold run_unit. now rewrite E. Qed.

(** ** The comparison programs *)

Example argc_cc_reads_arguments :
  @run_unit hosted_clib no_externs no_externs argc_cc 3
     (with_argv ["a"; "b"] plain_host) empty_world = Exit 2 empty_world []
  /\ @run_unit hosted_clib no_externs no_externs argc_cc 3
     (with_argv [] plain_host) empty_world = Exit 0 empty_world [].
Proof. split; reflexivity. Qed.

Lemma spin_loop_never_ends {L : CLib}
    (std rose : string -> string -> option extern) (n : nat)
    (env : list (string * Z)) (h : Host) (w : World) :
  exec_stmt std rose spin_cc n env (SWhile (EConst 1) []) h w = OutOfFuel.
Proof.
  induction n as [| n IH]; [reflexivity |].
  destruct n as [| n]; [reflexivity |].
  simpl. simpl in IH. rewrite bind_ret_l. simpl. rewrite bind_ret_l. exact IH.
Qed.

Example spin_cc_never_finishes {L : CLib}
    (std rose : string -> string -> option extern) (n : nat)
    (h : Host) (w : World) :
  run_unit std rose spin_cc n h w = Unfinished.
Proof.
  rewrite (run_unit_main std rose spin_cc _ n h w eq_refl).
  unfold start, entry, bind. cbn [fn_body].
  destruct n as [| n]; [reflexivity |].
  rewrite exec_block_cons. unfold bind.
  now rewrite spin_loop_never_ends.
Qed.

Example draw_cc_needs_its_import :
  @run_unit hosted_clib no_externs throwing_externs draw_cc 5
     plain_host empty_world = Abort empty_world []
  /\ @run_unit hosted_clib no_externs throwing_externs (drop_imports draw_cc) 5
     plain_host empty_world = NotBuilt "rose::draw".
Proof. split; reflexivity. Qed.

(** * The claims *)

(** C1. Every invocation ends with the process exiting, and the status it
    reports is the platform's success status [EXIT_SUCCESS]; no other exit
    status is ever produced. *)
Theorem entry_point_reports_success {L : CLib} (h : Host) (w : World) :
  terminated (process h w) = true
  /\ exit_status (process h w) = Some EXIT_SUCCESS
  /\ (forall st : Z, exit_status (process h w) = Some st -> st = EXIT_SUCCESS).
Proof.
  rewrite process_exits. simpl. repeat split.
  intros st Hst. now inversion Hst.
Qed.

(** C2. Two invocations that differ in their command-line arguments
    (either list may be empty), on the same or on different hosts, report
    the same status, success. The arguments are never read: [main] declares
    no parameter, the runtime binds nothing for it, and on one host the
    whole outcome is the same for any two argument lists, also when the
    text of [main.cc] is run with any budget. *)
Theorem arguments_do_not_influence_outcome {L : CLib}
    (std rose : string -> string -> option extern) (n : nat)
    (h h' : Host) (w w' : World) (a1 a2 : list string) :
  exit_status (process (with_argv a1 h) w)
    = exit_status (process (with_argv a2 h') w')
  /\ exit_status (process (with_argv a1 h) w) = Some EXIT_SUCCESS
  /\ exit_status (process (with_argv [] h) w) = Some EXIT_SUCCESS
  /\ process (with_argv a1 h) w = process (with_argv a2 h) w
  /\ fn_params main_def = []
  /\ main_env main_def (with_argv a1 h) = []
  /\ run_unit std rose main_cc n (with_argv a1 h) w
     = run_unit std rose main_cc n (with_argv a2 h) w.
Proof.
  rewrite !main_cc_any_fuel, !process_exits. simpl.
  repeat split.
Qed.

(** C3. The entry point always terminates. Its body has no loop and no
    call (so no blocking call and no recursion), hence it runs to its end
    within its size, three steps, whatever the host, the external state and
    the contents of the headers and modules. *)
Theorem entry_point_terminates {L : CLib}
    (std rose : string -> string -> option extern) (n : nat)
    (h : Host) (w : World) :
  (block_size (fn_body main_def) <= n)%nat ->
  existsb stmt_has_loop (fn_body main_def) = false
  /\ existsb stmt_has_call (fn_body main_def) = false
  /\ unit_calls main_cc = []
  /\ block_size (fn_body main_def) = 3%nat
  /\ terminated (run_unit std rose main_cc n h w) = true
  /\ terminated (process h w) = true.
Proof.
  intros Hn.
  assert (Hloop : existsb stmt_has_loop (fn_body main_def) = false)
    by reflexivity.
  assert (Hcall : existsb stmt_has_call (fn_body main_def) = false)
    by reflexivity.
  split; [exact Hloop |]. split; [exact Hcall |].
  split; [reflexivity |]. split; [reflexivity |]. split.
  - destruct (straight_block_runs std rose main_cc (main_env main_def h)
                n (fn_body main_def) h w Hcall Hloop
                (main_body_resolves _) Hn) as [r Er].
    rewrite (run_unit_main std rose main_cc main_def n h w eq_refl).
    unfold start, entry.
    rewrite (bind_val _ _ _ _ _ Er). reflexivity.
  - now rewrite process_exits.
Qed.

(** The budget 3 on a usual host, with modules whose every export throws. *)
Lemma entry_point_terminates_witness :
  (block_size (fn_body main_def) <= 3)%nat
  /\ terminated
       (@run_unit hosted_clib no_externs throwing_externs main_cc 3
          plain_host empty_world) = true.
Proof.
  split; [vm_compute; lia |].
  apply (@entry_point_terminates hosted_clib no_externs throwing_externs 3
           plain_host empty_world).
  vm_compute; lia.
Defined.

(** C4. Executing the entry point leaves the external state as it was:
    the files, what was sent to the network and both standard streams are
    unchanged, and no observable event is produced. The same holds for the
    text of [main.cc] run with any budget that lets it finish. *)
Theorem entry_point_has_no_effect {L : CLib}
    (std rose : string -> string -> option extern) (n : nat)
    (h : Host) (w : World) :
  final_world (process h w) = Some w
  /\ effects (process h w) = Some []
  /\ (exists w' : World,
        final_world (process h w) = Some w'
        /\ files w' = files w
        /\ net_sent w' = net_sent w
        /\ out_stream w' = out_stream w
        /\ err_stream w' = err_stream w)
  /\ final_world (run_unit std rose main_cc (3 + n) h w) = Some w
  /\ effects (run_unit std rose main_cc (3 + n) h w) = Some [].
Proof.
  rewrite main_cc_runs_main, process_exits. simpl.
  repeat split. exists w. repeat split.
Qed.

(** C5. The entry point cannot fail. [main] returns the success status
    itself: no exception, no blocked call, and no status other than success,
    so in particular never the failure status. Its body contains no call,
    the only operation that can fail. Running the text of [main.cc] never
    ends in an abort, a hang or a name that does not resolve, with any
    budget and whatever the headers and modules contain, and any status it
    reports is the success status. *)
Theorem entry_point_cannot_fail {L : CLib}
    (std rose : string -> string -> option extern) (n : nat)
    (h : Host) (w : World) :
  is_error (process h w) = false
  /\ main h w = Val EXIT_SUCCESS w []
  /\ process h w = Exit EXIT_SUCCESS w []
  /\ (EXIT_SUCCESS <> EXIT_FAILURE ->
      exit_status (process h w) <> Some EXIT_FAILURE)
  /\ existsb stmt_has_call (fn_body main_def) = false
  /\ (forall w' tr, run_unit std rose main_cc n h w <> Abort w' tr)
  /\ (forall w' tr, run_unit std rose main_cc n h w <> Hang w' tr)
  /\ (forall name, run_unit std rose main_cc n h w <> NotBuilt name)
  /\ (forall st w' tr, run_unit std rose main_cc n h w = Exit st w' tr ->
        st = EXIT_SUCCESS)
  /\ run_unit std rose main_cc (3 + n) h w = Exit EXIT_SUCCESS w []
  /\ is_error (run_unit std rose main_cc (3 + n) h w) = false.
Proof.
  rewrite main_cc_runs_main, main_cc_any_fuel, process_exits.
  cbn [is_error exit_status]. rewrite Z.eqb_refl.
  split; [reflexivity |]. split; [reflexivity |]. split; [reflexivity |].
  split; [intros Hne Heq; apply Hne; now inversion Heq |].
  split; [reflexivity |].
  split; [intros w' tr; destruct (n <? 3)%nat; discriminate |].
  split; [intros w' tr; destruct (n <? 3)%nat; discriminate |].
  split; [intros name; destruct (n <? 3)%nat; discriminate |].
  split; [| split; reflexivity].
  intros st w' tr Hrun.
  destruct (n <? 3)%nat; [discriminate | now inversion Hrun].
Qed.

(** ** Repeated runs *)

Lemma run_many_all_succeed {L : CLib} (hs : list Host) (w : World) :
  run_many hs w = (repeat (Exit EXIT_SUCCESS w []) (List.length hs), w).
Proof.
  induction hs as [| h rest IH]; [reflexivity |].
  cbn [run_many]. rewrite process_exits. cbn [final_world].
  now rewrite IH.
Qed.

(** C6. Running the program any number of times, one run after another on
    any hosts, gives the same outcome on every run: exit with success, the
    external state as it was before the first run. Reordering the runs
    changes nothing, and running the whole series again leaves the state
    where one series left it. *)
Theorem repeated_runs_are_identical {L : CLib}
    (hs hs' : list Host) (w : World) :
  Permutation hs hs' ->
  run_many hs w = (repeat (Exit EXIT_SUCCESS w []) (List.length hs), w)
  /\ run_many hs' w = run_many hs w
  /\ Forall (fun o => exit_status o = Some EXIT_SUCCESS) (fst (run_many hs w))
  /\ snd (run_many (hs ++ hs) w) = snd (run_many hs w).
Proof.
  intros Hperm. rewrite !run_many_all_succeed.
  rewrite (Permutation_length Hperm).
  repeat split. simpl.
  apply Forall_forall. intros o Ho.
  apply repeat_spec in Ho. now subst o.
Qed.

(** Two runs on two different hosts, in either order. *)
Lemma repeated_runs_are_identical_witness :
  Permutation [plain_host; barren_host [] []] [barren_host [] []; plain_host]
  /\ @run_many hosted_clib [barren_host [] []; plain_host] empty_world
     = @run_many hosted_clib [plain_host; barren_host [] []] empty_world.
Proof.
  split; [apply perm_swap |].
  apply (@repeated_runs_are_identical hosted_clib
           [plain_host; barren_host [] []] [barren_host [] []; plain_host]
           empty_world).
  apply perm_swap.
Defined.

(** C7. Two invocations on any two hosts and external states report the
    same status, success: also on a host with no readable filesystem, no
    network and no randomness, whatever its arguments and environment
    variables. [main] reads nothing of the host: on one external state its
    result is the same on any two hosts, it produces no event, and the same
    holds for the text of [main.cc] run with any budget. *)
Theorem environment_does_not_influence_outcome {L : CLib}
    (std rose : string -> string -> option extern) (n : nat)
    (h1 h2 : Host) (w1 w2 : World)
    (a : list string) (e : list (string * string)) :
  exit_status (process h1 w1) = exit_status (process h2 w2)
  /\ exit_status (process h1 w1) = Some EXIT_SUCCESS
  /\ exit_status (process (barren_host a e) w1) = Some EXIT_SUCCESS
  /\ main h1 w1 = main h2 w1
  /\ process h1 w1 = process h2 w1
  /\ effects (process h1 w1) = Some []
  /\ run_unit std rose main_cc n h1 w1 = run_unit std rose main_cc n h2 w1.
Proof.
  rewrite !main_cc_any_fuel, !process_exits. repeat split.
Qed.

(** ** The state machine of the process *)

Lemma step_main {L : CLib} (h : Host) (w : World) :
  step main (Running h w) (Ended (Exit EXIT_SUCCESS w [])).
Proof.
  change (Exit EXIT_SUCCESS w []) with (start main h w).
  apply step_end. reflexivity.
Qed.

Lemma step_main_inv {L : CLib} (s s' : pstate) :
  step main s s' ->
  exists h w, s = Running h w /\ s' = Ended (Exit EXIT_SUCCESS w []).
Proof.
  intros Hstep. inversion Hstep as [h w Hterm Hs Hs'].
  exists h, w. split; reflexivity.
Qed.

Lemma ended_is_terminal (entry : M Z) (o : outcome) :
  terminal entry (Ended o).
Proof. intros s' Hstep. inversion Hstep. Qed.

Lemma reachable_main {L : CLib} (h : Host) (w : World) (s : pstate) :
  reachable main (Running h w) s ->
  s = Running h w \/ s = Ended (Exit EXIT_SUCCESS w []).
Proof.
  induction 1 as [| s s' Hreach IH Hstep].
  - now left.
  - right. destruct (step_main_inv s s' Hstep) as (h1 & w1 & Hs & Hs').
    destruct IH as [IH | IH]; rewrite IH in Hs.
    + inversion Hs. now subst.
    + discriminate.
Qed.

Lemma phase_of_success {L : CLib} (w : World) (tr : list event) :
  phase_of (Ended (Exit EXIT_SUCCESS w tr)) = PhTerminatedSuccess.
Proof. simpl. now rewrite Z.eqb_refl. Qed.

(** C8. From the initial state "running" the process reaches exactly two
    states, "running" and "terminated: success". There is one transition,
    from the first to the second; it is always enabled and its target is
    unique. The success state is terminal, the running state is not, and
    the only terminal state reached is the success state. *)
Theorem state_machine_has_two_states {L : CLib}
    (h : Host) (w : World) (s : pstate) :
  reachable main (Running h w) s ->
  (s = Running h w \/ s = Ended (Exit EXIT_SUCCESS w []))
  /\ (phase_of s = PhRunning \/ phase_of s = PhTerminatedSuccess)
  /\ phase_of (Running h w) = PhRunning
  /\ phase_of (Ended (Exit EXIT_SUCCESS w [])) = PhTerminatedSuccess
  /\ step main (Running h w) (Ended (Exit EXIT_SUCCESS w []))
  /\ (forall s1 s2, step main s1 s2 ->
        phase_of s1 = PhRunning /\ phase_of s2 = PhTerminatedSuccess)
  /\ (forall s', step main (Running h w) s' ->
        s' = Ended (Exit EXIT_SUCCESS w []))
  /\ terminal main (Ended (Exit EXIT_SUCCESS w []))
  /\ ~ terminal main (Running h w)
  /\ (terminal main s -> s = Ended (Exit EXIT_SUCCESS w [])).
Proof.
  intros Hreach. apply reachable_main in Hreach.
  split; [exact Hreach |].
  split.
  { destruct Hreach as [-> | ->]; [now left | right; apply phase_of_success]. }
  split; [reflexivity |].
  split; [apply phase_of_success |].
  split; [apply step_main |].
  split.
  { intros s1 s2 Hstep.
    destruct (step_main_inv s1 s2 Hstep) as (h1 & w1 & -> & ->).
    split; [reflexivity | apply phase_of_success]. }
  split.
  { intros s' Hstep.
    destruct (step_main_inv _ s' Hstep) as (h1 & w1 & Hs & ->).
    inversion Hs. reflexivity. }
  split; [apply ended_is_terminal |].
  split.
  { intros Hterm. exact (Hterm _ (step_main h w)). }
  intros Hterm. destruct Hreach as [-> | ->]; [| reflexivity].
  exfalso. exact (Hterm _ (step_main h w)).
Qed.

(** The success state is reached from the running state on a usual host. *)
Lemma state_machine_has_two_states_witness :
  reachable (@main hosted_clib) (Running plain_host empty_world)
    (Ended (Exit 0 empty_world []))
  /\ @phase_of hosted_clib (Ended (Exit 0 empty_world []))
     = PhTerminatedSuccess.
Proof.
  assert (Hreach : reachable (@main hosted_clib)
            (Running plain_host empty_world) (Ended (Exit 0 empty_world []))).
  { eapply reach_step; [apply reach_here |].
    apply (step_end (@main hosted_clib) plain_host empty_world).
    reflexivity. }
  split; [exact Hreach |].
  destruct (@state_machine_has_two_states hosted_clib plain_host empty_world
              _ Hreach) as (_ & [Hph | Hph] & _).
  - discriminate Hph.
  - exact Hph.
Defined.

(** C9. No executable statement of [main.cc] uses a symbol of the three
    imported modules: the unit calls nothing at all. So the unit without
    its three import declarations is observationally equal to the original:
    with every budget, on every host and external state, and whatever the
    modules export, both give the same outcome; once they finish, both exit
    with success, the external state unchanged and no event produced. *)
Theorem imports_can_be_dropped {L : CLib}
    (std rose : string -> string -> option extern) (n : nat)
    (h : Host) (w : World) :
  imports main_cc = ["rose.filesystem"; "rose.random"; "rose.span"]
  /\ imports (drop_imports main_cc) = []
  /\ unit_calls main_cc = []
  /\ unused_names rose main_cc (unit_calls main_cc)
  /\ run_unit std rose (drop_imports main_cc) n h w
     = run_unit std rose main_cc n h w
  /\ run_unit std rose (drop_imports main_cc) (3 + n) h w
     = Exit EXIT_SUCCESS w []
  /\ run_unit std rose main_cc (3 + n) h w = Exit EXIT_SUCCESS w [].
Proof.
  assert (Hunused : unused_names rose main_cc (unit_calls main_cc)).
  { intros f Hf. destruct Hf. }
  split; [reflexivity |]. split; [reflexivity |]. split; [reflexivity |].
  split; [exact Hunused |].
  split; [apply run_unit_drop_imports; exact Hunused |].
  rewrite (run_unit_drop_imports std rose main_cc Hunused).
  rewrite main_cc_runs_main, process_exits. split; reflexivity.
Qed.

(** C10. The exit status is the value of the macro [EXIT_SUCCESS], with
    every C library: the body of [main] is the single statement
    [return EXIT_SUCCESS;], the macro resolves to the C library's value, and
    that value is the status, of [main] and of the text of [main.cc] alike.
    With a C library in which [EXIT_SUCCESS] is 0, as in the usual
    implementations, the status is therefore the integer 0. *)
Theorem exit_status_is_value_of_EXIT_SUCCESS {L : CLib}
    (std rose : string -> string -> option extern) (n : nat)
    (h : Host) (w : World) :
  fn_body main_def = [SReturn (EMacro "EXIT_SUCCESS")]
  /\ find_fun main_cc "main" = Some main_def
  /\ macro_value main_cc "EXIT_SUCCESS" = Some EXIT_SUCCESS
  /\ main h w = Val EXIT_SUCCESS w []
  /\ exit_status (process h w) = Some EXIT_SUCCESS
  /\ exit_status (run_unit std rose main_cc (3 + n) h w) = Some EXIT_SUCCESS
  /\ (EXIT_SUCCESS = 0 ->
      exit_status (process h w) = Some 0
      /\ exit_status (run_unit std rose main_cc (3 + n) h w) = Some 0).
Proof.
  split; [reflexivity |]. split; [reflexivity |]. split; [reflexivity |].
  split; [reflexivity |].
  rewrite main_cc_runs_main, process_exits. cbn [exit_status].
  split; [reflexivity |]. split; [reflexivity |].
  intros Hzero. now rewrite Hzero.
Qed.

(** The hosted C library, where [EXIT_SUCCESS] is 0. *)
Lemma exit_status_is_value_of_EXIT_SUCCESS_witness :
  @EXIT_SUCCESS hosted_clib = 0
  /\ exit_status (@process hosted_clib plain_host empty_world) = Some 0.
Proof.
  split; [reflexivity |].
  apply (@exit_status_is_value_of_EXIT_SUCCESS hosted_clib
           no_externs no_externs 0 plain_host empty_world).
  reflexivity.
Defined.

(** The status follows the macro, not the number zero: with a C library
    whose [EXIT_SUCCESS] is 1 the process exits with 1. *)
Example status_follows_the_macro :
  exit_status (@process odd_clib plain_host empty_world) = Some 1.
Proof. reflexivity. Qed.
